(** * django-ueditor: the widget module [ueditor/widgets.py]

    A shallow embedding of the locale and configuration resolver
    ([convert_language_code], [language_file_exists],
    [get_language_config]) and of [UEditor.render], with the properties
    the specification states about them. *)

From Stdlib Require Import Ascii.
From stdpp Require Import base option list strings gmap.

(** ** Python primitives used by the module *)

Module Py.

(** The exceptions the module can meet: [IndexError] from list
    indexing, [ImportError] from the import of the spellchecking
    library, [KeyError] and [ValueError] from [str.format]. *)
Inductive exn : Type :=
| IndexError
| KeyError
| ValueError
| ImportError (msg : string).

(** The outcome of an expression: a value, or a raised exception. *)
Inductive result (A : Type) : Type :=
| Ok (a : A)
| Raise (e : exn).
Arguments Ok {A} a.
Arguments Raise {A} e.

#[export] Instance result_ret : MRet result := @Ok.
#[export] Instance result_bind : MBind result := λ A B f r,
  match r with
  | Ok a => f a
  | Raise e => Raise e
  end.
#[export] Instance result_throw : MThrow exn result := @Raise.
#[export] Instance result_fmap : FMap result := λ A B f r,
  match r with
  | Ok a => Ok (f a)
  | Raise e => Raise e
  end.

(** [try: body except IndexError: handler]. *)
Definition try_except_IndexError {A} (body handler : result A) : result A :=
  match body with
  | Raise IndexError => handler
  | r => r
  end.

(** [l[i]] for [0 <= i]: raises [IndexError] out of range. *)
Definition getitem {A} (l : list A) (i : nat) : result A :=
  match l !! i with
  | Some x => Ok x
  | None => Raise IndexError
  end.

(** [s.split(sep)] for a separator of one character: one piece more
    than there are separators, empty pieces kept. *)
Fixpoint str_split (sep : ascii) (s : string) : list string :=
  match s with
  | EmptyString => [EmptyString]
  | String c s' =>
      if decide (c = sep) then EmptyString :: str_split sep s'
      else match str_split sep s' with
           | [] => [String c EmptyString]
           | p :: ps => String c p :: ps
           end
  end.

(** [sep.join(l)]. *)
Fixpoint str_join (sep : string) (l : list string) : string :=
  match l with
  | [] => EmptyString
  | [x] => x
  | x :: xs => x +:+ sep +:+ str_join sep xs
  end.

(** [s[:n]]: the first [n] characters, all of [s] when it is shorter. *)
Fixpoint slice_to (n : nat) (s : string) : string :=
  match n, s with
  | S n', String c s' => String c (slice_to n' s')
  | _, _ => EmptyString
  end.

(** [s.startswith(c)] and [s.endswith(c)] for one character. *)
Definition startswith (c : ascii) (s : string) : bool :=
  match s with
  | String c' _ => bool_decide (c' = c)
  | EmptyString => false
  end.

Fixpoint endswith (c : ascii) (s : string) : bool :=
  match s with
  | EmptyString => false
  | String c' EmptyString => bool_decide (c' = c)
  | String _ s' => endswith c s'
  end.

(** [a or b] where [a] is [None] or a string: [a] when it is truthy
    (a string that is not empty), else [b]. *)
Definition or_ (a : option string) (b : string) : string :=
  match a with
  | Some (String c s) => String c s
  | _ => b
  end.

(** [os.path.join] of [posixpath], on [a] and the components [p]: a
    component that starts with the separator restarts the path. *)
Definition path_join_step (path b : string) : string :=
  if startswith "/" b then b
  else if bool_decide (path = EmptyString) || endswith "/" path then path +:+ b
  else path +:+ "/" +:+ b.

Definition path_join (a : string) (p : list string) : string :=
  foldl path_join_step a p.

(** [str.upper] on the ASCII letters; every other character of the
    range is kept. *)
Definition ascii_upper (c : ascii) : ascii :=
  let n := nat_of_ascii c in
  if bool_decide (97 ≤ n ≤ 122) then ascii_of_nat (n - 32) else c.

Fixpoint ascii_str_upper (s : string) : string :=
  match s with
  | EmptyString => EmptyString
  | String c s' => String (ascii_upper c) (ascii_str_upper s')
  end.

(** [template.format] with keyword arguments, for templates whose
    replacement fields are plain names: a doubled brace is a literal brace, a
    field is replaced by the value of its keyword and the value is
    not read again. The scanner is in the text, just after an opening
    brace, inside a field, or just after a closing brace. *)
Inductive format_state : Type :=
| InText
| AfterOpen
| InField (field_name : string)
| AfterClose.

Fixpoint kwargs_get (kwargs : list (string * string)) (k : string) : option string :=
  match kwargs with
  | [] => None
  | (k', v) :: kwargs' => if decide (k' = k) then Some v else kwargs_get kwargs' k
  end.

Fixpoint format_from (kwargs : list (string * string)) (st : format_state)
    (template : string) : result string :=
  match template with
  | EmptyString =>
      match st with
      | InText => Ok EmptyString
      | _ => Raise ValueError
      end
  | String c rest =>
      match st with
      | InText =>
          if decide (c = "{"%char) then format_from kwargs AfterOpen rest
          else if decide (c = "}"%char) then format_from kwargs AfterClose rest
          else String c <$> format_from kwargs InText rest
      | AfterOpen =>
          if decide (c = "{"%char) then String c <$> format_from kwargs InText rest
          else if decide (c = "}"%char) then Raise IndexError
          else format_from kwargs (InField (String c EmptyString)) rest
      | InField field_name =>
          if decide (c = "}"%char) then
            match kwargs_get kwargs field_name with
            | Some v => String.append v <$> format_from kwargs InText rest
            | None => Raise KeyError
            end
          else format_from kwargs (InField (field_name +:+ String c EmptyString)) rest
      | AfterClose =>
          if decide (c = "}"%char) then String c <$> format_from kwargs InText rest
          else Raise ValueError
      end
  end.

Definition format (template : string) (kwargs : list (string * string)) : result string :=
  format_from kwargs InText template.

End Py.
Import Py.

(** ** Effects: oracle queries and log records *)

(** What a call leaves behind, in order: the paths it asked the
    static-files finders for, and the records it handed to the logger
    (the logger's level is 20, so [info] and [error] records are both
    emitted). A record keeps its format string and its argument. *)
Inductive event : Type :=
| Find (path : string)
| LogInfo (fmt : string) (arg : list string)
| LogError (fmt : string) (arg : string).

(** A computation: the events so far and its outcome. *)
Definition M (A : Type) : Type := (list event * result A)%type.

#[export] Instance M_ret : MRet M := λ A a, ([], Ok a).
#[export] Instance M_bind : MBind M := λ A B f m,
  match m with
  | (t, Ok a) => let '(t', r) := f a in (t ++ t', r)
  | (t, Raise e) => (t, Raise e)
  end.
#[export] Instance M_throw : MThrow exn M := λ A e, ([], Raise e).

Definition lift {A} (r : result A) : M A := ([], r).
Definition emit (e : event) : M unit := ([e], Ok tt).

(** [for x in l: body], the loop's variables threaded as [s]. *)
Fixpoint for_each {A S} (body : A → S → M S) (l : list A) (s : S) : M S :=
  match l with
  | [] => mret s
  | x :: xs => s' ← body x s; for_each body xs s'
  end.

(** ** The environment the module reads *)

(** A configuration dictionary: keys and values are strings. *)
Abbreviation dict := (gmap string string).

Record Env : Type := {
  (** [django.utils.translation.get_language()] *)
  get_language : option string;
  (** [django.utils.translation.get_language_bidi()] *)
  get_language_bidi : bool;
  (** [settings.LANGUAGE_CODE], [settings.LANGUAGES], [settings.DEBUG] *)
  LANGUAGE_CODE : string;
  LANGUAGES : list (string * string);
  DEBUG : bool;
  (** [qtue_settings.USE_SPELLCHECKER] *)
  USE_SPELLCHECKER : bool;
  (** [from enchant import list_languages]: [None] when the import
      raises [ImportError], else what [list_languages()] returns. *)
  enchant : option (list string);
  (** [django.contrib.staticfiles.finders.find] *)
  finders_find : string → option string;
}.

(** The path [language_file_exists] looks for (lines 50-51). *)
Definition language_file_path (language_code : string) : string :=
  let filename := language_code +:+ ".js" in
  path_join "UE" ["lang"; language_code; filename].

(** Lines 41-52. *)
Definition language_file_exists (env : Env) (language_code : string) : M bool :=
  let path := language_file_path language_code in
  _ ← emit (Find path);
  mret (bool_decide (finders_find env path ≠ None)).

(** The answer of [language_file_exists], without its events. *)
Definition file_exists (env : Env) (language_code : string) : bool :=
  bool_decide (finders_find env (language_file_path language_code) ≠ None).

(** Lines 74-79. *)
Definition ImportError_msg : string :=
  "To use spellchecker you need to install pyenchant first!".

Definition import_list_languages (env : Env) : M (list string) :=
  match enchant env with
  | Some list_languages => mret list_languages
  | None => mthrow (ImportError ImportError_msg)
  end.

(** ** [convert_language_code] and [get_language_config] *)

Section Resolver.

(** [str.upper]: the Unicode case mapping of the interpreter, of which
    the module uses nothing but that it maps strings to strings. *)
Variable upper : string → string.

(** Lines 98-111. *)
Definition convert_language_code (django_lang : string) : result string :=
  let lang_and_country := str_split "-" django_lang in
  try_except_IndexError
    (l0 ← getitem lang_and_country 0;
     l1 ← getitem lang_and_country 1;
     mret (str_join "_" [l0; upper l1]))
    (getitem lang_and_country 0).

(** Lines 84-93: the body of the loop over [settings.LANGUAGES]. *)
Definition spellchecker_body (env : Env) (enchant_languages : list string)
    (item : string * string) (s : dict * list string) : M (dict * list string) :=
  let '(lang, name) := item in
  let '(config, lang_names) := s in
  lang ← lift (convert_language_code lang);
  let lang := if bool_decide (lang ∉ enchant_languages) then slice_to 2 lang else lang in
  if bool_decide (lang ∉ enchant_languages) then
    _ ← emit (LogError "Missing {0} spellchecker dictionary!" lang);
    mret (config, lang_names)
  else
    let config :=
      match config !! "spellchecker_language" with
      | None => <["spellchecker_language" := lang]> config
      | Some _ => config
      end in
    mret (config, lang_names ++ [name +:+ "=" +:+ lang]).

(** Lines 55-95. *)
Definition get_language_config (env : Env) : M dict :=
  language_code ← lift (convert_language_code
                          (or_ (get_language env) (LANGUAGE_CODE env)));
  found ← language_file_exists env language_code;
  language_code ←
    (if negb found then
       let language_code := slice_to 2 language_code in
       found ← language_file_exists env language_code;
       if negb found then mret "en" else mret language_code
     else mret language_code);
  let config : dict := {["language" := language_code]} in
  let config :=
    if get_language_bidi env then <["directionality" := "rtl"]> config
    else <["directionality" := "ltr"]> config in
  if USE_SPELLCHECKER env then
    enchant_languages ← import_list_languages env;
    _ ← (if DEBUG env then emit (LogInfo "Enchant languages: {0}" enchant_languages)
         else mret ());
    '(config, lang_names) ←
      for_each (spellchecker_body env enchant_languages) (LANGUAGES env) (config, []);
    mret (<["spellchecker_languages" := str_join "," lang_names]> config)
  else mret config.

End Resolver.

(** ** Concrete environments *)

(** A finder that knows the language files of the given codes. *)
Definition finder_of (codes : list string) (path : string) : option string :=
  if bool_decide (path ∈ language_file_path <$> codes) then Some path else None.

Definition env_of (lang : string) (bidi : bool) (languages : list (string * string))
    (spell : bool) (dicts : option (list string)) (codes : list string) : Env :=
  {| get_language := Some lang; get_language_bidi := bidi;
     LANGUAGE_CODE := "en-us"; LANGUAGES := languages; DEBUG := false;
     USE_SPELLCHECKER := spell; enchant := dicts; finders_find := finder_of codes |}.

(** Two environments that differ in what the configuration does not
    depend on: the debug flag, which of [get_language()] and
    [settings.LANGUAGE_CODE] gives the locale, and where the finders
    find a file. *)
Definition env_request : Env :=
  {| get_language := Some "pt-br"; get_language_bidi := false;
     LANGUAGE_CODE := "en-us";
     LANGUAGES := [("en-us", "English"); ("pt-br", "Portuguese"); ("he", "Hebrew")];
     DEBUG := false; USE_SPELLCHECKER := true; enchant := Some ["en_US"; "pt"];
     finders_find := finder_of ["pt_BR"] |}.

Definition env_settings : Env :=
  {| get_language := None; get_language_bidi := false;
     LANGUAGE_CODE := "pt-br";
     LANGUAGES := [("en-us", "English"); ("pt-br", "Portuguese"); ("he", "Hebrew")];
     DEBUG := true; USE_SPELLCHECKER := true; enchant := Some ["en_US"; "pt"];
     finders_find := λ path,
       if bool_decide (path ∈ language_file_path <$> ["pt_BR"])
       then Some ("/srv/static/" +:+ path) else None |}.

(** ** The widget *)

(** The double quote and the line feed of the template. *)
Definition dq : string := String "034" EmptyString.
Definition nl : string := String "010" EmptyString.

(** Lines 176-187: the text between the triple quotes. *)
Definition ue_html_template : string :=
    "<script id=" +:+ dq +:+ "{name}" +:+ dq +:+ " name=" +:+ dq +:+ "{name}" +:+ dq +:+ " type=" +:+ dq +:+ "text/plain" +:+ dq +:+ ">" +:+ nl +:+
    "                                            </script>" +:+ nl +:+
    "                                            <textarea id=" +:+ dq +:+ "{name}_val" +:+ dq +:+ " style=" +:+ dq +:+ "display:none;" +:+ dq +:+ " >{value}</textarea>" +:+ nl +:+
    "                                            <script>" +:+ nl +:+
    "                                            (function ($) {{" +:+ nl +:+
    "                                                var ue = UE.getEditor(" +:+ dq +:+ "{name}" +:+ dq +:+ ",{{zIndex: 100}});" +:+ nl +:+
    "                                                ue.ready(function () {{" +:+ nl +:+
    "                                                    var content_val =$('#{name}_val').val();" +:+ nl +:+
    "                                                    ue.setContent(content_val);" +:+ nl +:+
    "                                                }});" +:+ nl +:+
    "                                            }})(grp.jQuery);" +:+ nl +:+
    "                                            </script>".

(** The text the template gives for a name and a value. *)
Definition ue_html (name value : string) : string :=
    "<script id=" +:+ dq +:+ name +:+ dq +:+ " name=" +:+ dq +:+ name +:+ dq +:+ " type=" +:+ dq +:+ "text/plain" +:+ dq +:+ ">" +:+ nl +:+
    "                                            </script>" +:+ nl +:+
    "                                            <textarea id=" +:+ dq +:+ name +:+ "_val" +:+ dq +:+ " style=" +:+ dq +:+ "display:none;" +:+ dq +:+ " >" +:+ value +:+ "</textarea>" +:+ nl +:+
    "                                            <script>" +:+ nl +:+
    "                                            (function ($) {" +:+ nl +:+
    "                                                var ue = UE.getEditor(" +:+ dq +:+ name +:+ dq +:+ ",{zIndex: 100});" +:+ nl +:+
    "                                                ue.ready(function () {" +:+ nl +:+
    "                                                    var content_val =$('#" +:+ name +:+ "_val').val();" +:+ nl +:+
    "                                                    ue.setContent(content_val);" +:+ nl +:+
    "                                                });" +:+ nl +:+
    "                                            })(grp.jQuery);" +:+ nl +:+
    "                                            </script>".

Section Widget.

(** The values of the editor's configuration parameters, the values of
    the HTML attributes, and the form renderer. *)
Variables V A R : Type.

(** [qtue_settings.CONFIG] *)
Variable CONFIG : gmap string V.

(** The state of a [UEditor] instance. *)
Record UEditor : Type := {
  attrs : gmap string A;
  ue_attrs : gmap string V;
  profile : gmap string V;
}.

(** [x or y] for dictionaries: an empty dictionary is falsy. *)
Definition dict_or (x : option (gmap string V)) (y : gmap string V) : gmap string V :=
  match x with
  | Some d => if decide (d = ∅) then y else d
  | None => y
  end.

(** Lines 157-162; [Textarea.__init__] keeps the given attributes. *)
Definition UEditor_init (attrs : option (gmap string A))
    (ue_attrs profile : option (gmap string V)) : UEditor :=
  let default_profile := dict_or profile CONFIG in
  {| attrs := default ∅ attrs;
     ue_attrs := dict_or ue_attrs ∅;
     profile := default_profile ∪ ∅ |}.

(** [smart_text] and [mark_safe] keep the characters of a string. *)
Definition smart_text (s : string) : string := s.
Definition mark_safe (s : string) : string := s.

(** Lines 170-189. *)
Definition render (self : UEditor) (name : string) (value : option string)
    (attrs : option (gmap string A)) (renderer : option R) : result string :=
  let value := match value with None => EmptyString | Some v => v end in
  let value := smart_text value in
  let qtue_settings := profile self in
  let qtue_settings := ue_attrs self ∪ qtue_settings in
  ue_html ← format ue_html_template [("name", name); ("value", value)];
  mret (mark_safe ue_html).

End Widget.

Arguments attrs {V A} _.
Arguments ue_attrs {V A} _.
Arguments profile {V A} _.
Arguments render {V A R} self name value attrs renderer.

(** ** The specification's operations *)

(** The paths asked of the finders, and the arguments of the error
    records, in a list of events. *)
Definition finds (tr : list event) : list string :=
  omap (λ e, match e with Find path => Some path | _ => None end) tr.

Definition errors_logged (tr : list event) : list string :=
  omap (λ e, match e with LogError _ arg => Some arg | _ => None end) tr.

(** The active locale: [get_language() or settings.LANGUAGE_CODE]. *)
Definition active_locale (env : Env) : string :=
  or_ (get_language env) (LANGUAGE_CODE env).

Section Spec.

Variable upper : string → string.

(** The code [convert_language_code] returns. *)
Definition iso_code (django_lang : string) : string :=
  match convert_language_code upper django_lang with
  | Ok code => code
  | Raise _ => EmptyString
  end.

(** Specification 4.1, [resolve_language]: the converted code if the
    oracle has it, else its first two characters if the oracle has
    them, else the fallback. *)
Definition resolve_language (locale : string) (exists_ : string → bool) : string :=
  let code := iso_code locale in
  if exists_ code then code
  else if exists_ (slice_to 2 code) then slice_to 2 code
  else "en".

(** The codes [resolve_language] asks the oracle about, in order. *)
Definition resolve_queries (locale : string) (exists_ : string → bool) : list string :=
  let code := iso_code locale in
  if exists_ code then [code] else [code; slice_to 2 code].

(** Specification 4.1, [build_spellcheck_config], one pair: the
    converted code if a dictionary has it, else its first two
    characters if a dictionary has them, else nothing. *)
Definition dictionary_code (has_dictionary : string → bool) (lang : string) : option string :=
  let code := iso_code lang in
  if has_dictionary code then Some code
  else if has_dictionary (slice_to 2 code) then Some (slice_to 2 code)
  else None.

(** The surviving languages, as (name, code), in the order of the input. *)
Definition surviving (has_dictionary : string → bool)
    (languages : list (string * string)) : list (string * string) :=
  omap (λ '(lang, name), (λ code, (name, code)) <$> dictionary_code has_dictionary lang)
       languages.

(** The codes of the skipped languages, as they are logged. *)
Definition skipped (has_dictionary : string → bool)
    (languages : list (string * string)) : list string :=
  omap (λ '(lang, name),
          match dictionary_code has_dictionary lang with
          | Some _ => None
          | None => Some (slice_to 2 (iso_code lang))
          end) languages.

End Spec.

(** The dictionary oracle of a list of codes. *)
Definition has (dicts : list string) (code : string) : bool := bool_decide (code ∈ dicts).

(** The answers of the two oracles in an environment, and the
    configuration before the spellchecker's keys are added. *)
Definition language_lookups (upper : string → string) (env : Env) : list event :=
  Find ∘ language_file_path <$> resolve_queries upper (active_locale env) (file_exists env).

Definition base_config (upper : string → string) (env : Env) : dict :=
  <["directionality" := if get_language_bidi env then "rtl" else "ltr"]>
    {["language" := resolve_language upper (active_locale env) (file_exists env)]}.

(** [config.get('spellchecker_language') is None] and the assignment it guards. *)
Definition set_default_language (config : dict) (lang : string) : dict :=
  match config !! "spellchecker_language" with
  | None => <["spellchecker_language" := lang]> config
  | Some _ => config
  end.

(** The entry of a surviving language in [spellchecker_languages]. *)
Definition entry (nc : string * string) : string := nc.1 +:+ "=" +:+ nc.2.

Definition missing_fmt : string := "Missing {0} spellchecker dictionary!".

(** The spellchecker's keys, from the surviving languages. *)
Definition add_spellchecker (base : dict) (languages : list (string * string)) : dict :=
  <["spellchecker_languages" := str_join "," (entry <$> languages)]>
    match languages with
    | [] => base
    | nc :: _ => set_default_language base nc.2
    end.

(** The spellchecker is asked for and its library cannot be imported. *)
Definition import_fails (env : Env) : bool :=
  USE_SPELLCHECKER env && bool_decide (enchant env = None).

Definition spellchecker_events (upper : string → string) (env : Env) : list event :=
  match USE_SPELLCHECKER env, enchant env with
  | true, Some dicts =>
      (if DEBUG env then [LogInfo "Enchant languages: {0}" dicts] else []) ++
      (LogError missing_fmt <$> skipped upper (has dicts) (LANGUAGES env))
  | _, _ => []
  end.

Definition final_config (upper : string → string) (env : Env) : dict :=
  match USE_SPELLCHECKER env, enchant env with
  | true, Some dicts =>
      add_spellchecker (base_config upper env) (surviving upper (has dicts) (LANGUAGES env))
  | _, _ => base_config upper env
  end.

(** The value of the [language] key of the configuration a call returns. *)
Definition language_of (m : M dict) : result (option string) :=
  (λ config : dict, config !! "language") <$> m.2.

(** The character [c] occurs in [s]. *)
Fixpoint occurs (c : ascii) (s : string) : Prop :=
  match s with
  | EmptyString => False
  | String c' s' => c' = c ∨ occurs c s'
  end.

(** ** The rest of the module *)

(** The environment with another answer of [get_language()]. *)
Definition with_get_language (language : option string) (env : Env) : Env :=
  {| get_language := language; get_language_bidi := get_language_bidi env;
     LANGUAGE_CODE := LANGUAGE_CODE env; LANGUAGES := LANGUAGES env;
     DEBUG := DEBUG env; USE_SPELLCHECKER := USE_SPELLCHECKER env;
     enchant := enchant env; finders_find := finders_find env |}.

(** Lines 164-168, [UEditor.build_attrs]: [dict(base_attrs, **kwargs)],
    then [update(extra_attrs)] when [extra_attrs] is truthy (neither
    [None] nor empty). *)
Definition build_attrs {A : Type} (base_attrs : gmap string A)
    (extra_attrs : option (gmap string A)) (kwargs : gmap string A) : gmap string A :=
  let attributes := kwargs ∪ base_attrs in
  match extra_attrs with
  | Some extra => if decide (extra = ∅) then attributes else extra ∪ attributes
  | None => attributes
  end.

(** [p] is a prefix of [s], and [sub in s]. *)
Fixpoint str_prefix (p s : string) : bool :=
  match p, s with
  | EmptyString, _ => true
  | String c p', String c' s' => bool_decide (c = c') && str_prefix p' s'
  | String _ _, EmptyString => false
  end.

Fixpoint str_contains (sub s : string) : bool :=
  str_prefix sub s ||
  match s with
  | EmptyString => false
  | String _ s' => str_contains sub s'
  end.

(** [s[:-1]] and [s[1:-1]]. *)
Fixpoint slice_to_m1 (s : string) : string :=
  match s with
  | EmptyString => EmptyString
  | String _ EmptyString => EmptyString
  | String c s' => String c (slice_to_m1 s')
  end.

Definition slice_1_m1 (s : string) : string :=
  match s with
  | EmptyString => EmptyString
  | String _ s' => slice_to_m1 s'
  end.

(** A value of the editor's configuration: a string, or a JSON value of
    another kind. *)
Inductive jvalue (O : Type) : Type :=
| JStr (s : string)
| JOther (o : O).
Arguments JStr {O} s.
Arguments JOther {O} o.

(** How [render_ueditor_init_js] ends: it returns the rendered text, or
    [str + str] meets a selector that is no string and raises
    [TypeError]. *)
Inductive init_outcome : Type :=
| Returns (text : string)
| RaisesTypeError.

(** The context handed to the template. *)
Record init_context : Type := {
  ctx_callbacks : gmap string string;
  ctx_ueditor_config : string;
  ctx_is_admin_inline : bool;
}.

(** Lines 127-130: the default callbacks, written into the caller's
    dictionary. *)
Definition default_callbacks (env : Env) (USE_FILEBROWSER : bool)
    (callbacks : gmap string string) : gmap string string :=
  let callbacks :=
    if USE_FILEBROWSER && bool_decide (callbacks !! "file_browser_callback" = None)
    then <["file_browser_callback" := "djangoFileBrowser"]> callbacks
    else callbacks in
  if USE_SPELLCHECKER env && bool_decide (callbacks !! "spellchecker_callback" = None)
  then <["spellchecker_callback" := "ueditor4_spellcheck"]> callbacks
  else callbacks.

(** Lines 114-136. [json.dumps] and Django's [render_to_string] are
    taken as they are; [USE_FILEBROWSER] is
    [qtue_settings.USE_FILEBROWSER]. The two dictionaries are the
    caller's: the call returns them as it leaves them. *)
Definition render_ueditor_init_js {O : Type}
    (json_dumps : gmap string (jvalue O) → string)
    (render_to_string : string → init_context → string)
    (env : Env) (USE_FILEBROWSER : bool)
    (qtue_config : gmap string (jvalue O)) (callbacks : gmap string string)
    (id_ : string) : gmap string (jvalue O) * gmap string string * init_outcome :=
  let callbacks := default_callbacks env USE_FILEBROWSER callbacks in
  let selector :=
    if bool_decide (id_ ≠ EmptyString) then
      match default (JStr "textarea") (qtue_config !! "selector") with
      | JStr s => Some (<["selector" := JStr (s +:+ "#" +:+ id_)]> qtue_config)
      | JOther _ => None
      end
    else Some qtue_config in
  match selector with
  | None => (qtue_config, callbacks, RaisesTypeError)
  | Some qtue_config =>
      (qtue_config, callbacks,
       Returns (render_to_string "ueditor/ueditor_init.js"
                  {| ctx_callbacks := callbacks;
                     ctx_ueditor_config := slice_1_m1 (json_dumps qtue_config);
                     ctx_is_admin_inline := str_contains "__prefix__" id_ |}))
  end.

(** ** Properties of the string primitives *)

Lemma str_split_nonempty sep s : str_split sep s ≠ [].
Proof. induction s as [|c s IH]; simpl; [done|]. case_decide; [done|]. by destruct (str_split sep s). Qed.

Lemma str_split_no_sep sep s : ¬ occurs sep s → str_split sep s = [s].
Proof.
  induction s as [|c s IH]; simpl; [done|].
  intros Hno. case_decide as Hc; [by destruct Hno; left|].
  rewrite IH; [done|]. intros Ho. apply Hno. by right.
Qed.

Lemma str_split_app sep p s :
  ¬ occurs sep p → str_split sep (p +:+ String sep s) = p :: str_split sep s.
Proof.
  induction p as [|c p IH]; simpl.
  - intros _. by rewrite decide_True.
  - intros Hno. case_decide as Hc; [by destruct Hno; left|].
    rewrite IH; [done|]. intros Ho. apply Hno. by right.
Qed.

(** Splitting what [join] built from pieces without the separator gives
    the pieces back. *)
Lemma str_split_join sep p ps :
  Forall (λ q, ¬ occurs sep q) (p :: ps) →
  str_split sep (str_join (String sep EmptyString) (p :: ps)) = p :: ps.
Proof.
  revert p. induction ps as [|q ps IH]; intros p Hall.
  - simpl. apply str_split_no_sep. by inversion Hall.
  - inversion Hall as [|? ? Hp Hrest]; subst.
    change (str_join (String sep EmptyString) (p :: q :: ps))
      with (p +:+ String sep (str_join (String sep EmptyString) (q :: ps))).
    rewrite str_split_app; [|done]. by rewrite IH.
Qed.

(** ** Properties of [convert_language_code] *)

Section ConvertFacts.

Variable upper : string → string.

(** What the function returns, by the pieces of its argument. *)
Lemma convert_language_code_split django_lang language subtags :
  str_split "-" django_lang = language :: subtags →
  convert_language_code upper django_lang =
    Ok (match subtags with
        | [] => language
        | region :: _ => language +:+ "_" +:+ upper region
        end).
Proof.
  intros Hsplit. unfold convert_language_code. rewrite Hsplit.
  by destruct subtags.
Qed.

(** The function never raises. *)
Lemma convert_language_code_Ok django_lang :
  convert_language_code upper django_lang = Ok (iso_code upper django_lang).
Proof.
  unfold iso_code.
  destruct (str_split "-" django_lang) as [|language subtags] eqn:Hsplit.
  - by destruct (str_split_nonempty "-" django_lang).
  - by rewrite (convert_language_code_split _ _ _ Hsplit).
Qed.

Lemma iso_code_split django_lang language subtags :
  str_split "-" django_lang = language :: subtags →
  iso_code upper django_lang =
    match subtags with
    | [] => language
    | region :: _ => language +:+ "_" +:+ upper region
    end.
Proof.
  intros Hsplit. unfold iso_code.
  by rewrite (convert_language_code_split _ _ _ Hsplit).
Qed.

End ConvertFacts.

Lemma slice_to_app n (p s : string) : String.length p = n → slice_to n (p +:+ s) = p.
Proof.
  revert n. induction p as [|c p IH]; intros n Hn; simpl in *; subst n; simpl.
  - by destruct s.
  - by rewrite IH.
Qed.

Lemma slice_to_length n (p : string) : String.length p = n → slice_to n p = p.
Proof.
  revert n. induction p as [|c p IH]; intros n Hn; simpl in *; subst n; simpl; [done|].
  by rewrite IH.
Qed.

(** ** The events and the outcome of [get_language_config] *)

Lemma has_not_elem dicts code : bool_decide (code ∉ dicts) = negb (has dicts code).
Proof. unfold has. by rewrite bool_decide_not. Qed.

Lemma set_default_language_set config lang lang' :
  set_default_language (set_default_language config lang) lang' =
  set_default_language config lang.
Proof.
  unfold set_default_language.
  destruct (config !! "spellchecker_language") as [v|] eqn:Hget.
  - by rewrite Hget.
  - by rewrite lookup_insert_eq.
Qed.

Lemma set_default_language_other config lang k :
  k ≠ "spellchecker_language" →
  set_default_language config lang !! k = config !! k.
Proof.
  intros Hk. unfold set_default_language.
  destruct (config !! "spellchecker_language"); [done|].
  by rewrite lookup_insert_ne.
Qed.

Lemma set_default_language_fresh config lang :
  config !! "spellchecker_language" = None →
  set_default_language config lang !! "spellchecker_language" = Some lang.
Proof.
  intros Hget. unfold set_default_language. rewrite Hget. apply lookup_insert_eq.
Qed.

Section ResolverFacts.

Variable upper : string → string.

(** One turn of the loop: a surviving language sets the default
    language if none is set and appends its entry; a skipped one
    leaves an error record and nothing else. *)
Lemma spellchecker_body_eq env dicts lang name config lang_names :
  spellchecker_body upper env dicts (lang, name) (config, lang_names) =
  match dictionary_code upper (has dicts) lang with
  | Some code =>
      ([], Ok (set_default_language config code, lang_names ++ [entry (name, code)]))
  | None =>
      ([LogError "Missing {0} spellchecker dictionary!" (slice_to 2 (iso_code upper lang))],
       Ok (config, lang_names))
  end.
Proof.
  unfold spellchecker_body, dictionary_code.
  rewrite convert_language_code_Ok.
  unfold lift, emit, mbind, M_bind, entry. cbv beta iota zeta.
  rewrite !has_not_elem.
  destruct (has dicts (iso_code upper lang)) eqn:Hfull; cbn [negb].
  - rewrite Hfull. reflexivity.
  - destruct (has dicts (slice_to 2 (iso_code upper lang))); reflexivity.
Qed.

Lemma surviving_cons has_dictionary lang name languages :
  surviving upper has_dictionary ((lang, name) :: languages) =
  match dictionary_code upper has_dictionary lang with
  | Some code => (name, code) :: surviving upper has_dictionary languages
  | None => surviving upper has_dictionary languages
  end.
Proof.
  unfold surviving. cbn [omap list_omap].
  by destruct (dictionary_code upper has_dictionary lang).
Qed.

Lemma skipped_cons has_dictionary lang name languages :
  skipped upper has_dictionary ((lang, name) :: languages) =
  match dictionary_code upper has_dictionary lang with
  | Some _ => skipped upper has_dictionary languages
  | None => slice_to 2 (iso_code upper lang) :: skipped upper has_dictionary languages
  end.
Proof.
  unfold skipped. cbn [omap list_omap].
  by destruct (dictionary_code upper has_dictionary lang).
Qed.

(** The whole loop. *)
Lemma for_each_spellchecker_body env dicts languages config lang_names :
  for_each (spellchecker_body upper env dicts) languages (config, lang_names) =
  (LogError "Missing {0} spellchecker dictionary!" <$> skipped upper (has dicts) languages,
   Ok (match surviving upper (has dicts) languages with
       | [] => config
       | nc :: _ => set_default_language config nc.2
       end,
       lang_names ++ (entry <$> surviving upper (has dicts) languages))).
Proof.
  revert config lang_names.
  induction languages as [|[lang name] languages IH]; intros config lang_names.
  - cbn. by rewrite app_nil_r.
  - cbn [for_each]. rewrite spellchecker_body_eq, surviving_cons, skipped_cons.
    destruct (dictionary_code upper (has dicts) lang) as [code|];
      unfold mbind, M_bind; rewrite IH.
    + rewrite <- app_assoc. cbn.
      by destruct (surviving upper (has dicts) languages);
        rewrite ?set_default_language_set.
    + reflexivity.
Qed.

Lemma language_file_exists_eq env language_code :
  language_file_exists env language_code =
  ([Find (language_file_path language_code)], Ok (file_exists env language_code)).
Proof. reflexivity. Qed.

(** The events and the outcome of the whole function. *)
Lemma get_language_config_eq env :
  get_language_config upper env =
  (language_lookups upper env ++ spellchecker_events upper env,
   if import_fails env then Raise (ImportError ImportError_msg)
   else Ok (final_config upper env)).
Proof.
  unfold get_language_config, language_lookups, spellchecker_events, final_config,
    import_fails, add_spellchecker, base_config, resolve_queries, resolve_language.
  fold (active_locale env). rewrite convert_language_code_Ok.
  set (code := iso_code upper (active_locale env)).
  cbv beta iota zeta delta [mbind M_bind lift emit mret M_ret mthrow M_throw
    language_file_exists import_list_languages].
  fold (file_exists env code). fold (file_exists env (slice_to 2 code)).
  destruct (file_exists env code);
    [|destruct (file_exists env (slice_to 2 code))];
    destruct (get_language_bidi env), (USE_SPELLCHECKER env);
    cbv beta iota zeta delta [negb andb]; try reflexivity;
    (destruct (enchant env) as [dicts|]; [|reflexivity]);
    destruct (DEBUG env);
    rewrite for_each_spellchecker_body; cbn [app]; rewrite ?app_nil_r; reflexivity.
Qed.

End ResolverFacts.

(** ** The keys of the configuration *)

Lemma base_config_language upper env :
  base_config upper env !! "language" =
  Some (resolve_language upper (active_locale env) (file_exists env)).
Proof. unfold base_config. rewrite lookup_insert_ne by done. apply lookup_insert_eq. Qed.

Lemma base_config_directionality upper env :
  base_config upper env !! "directionality" =
  Some (if get_language_bidi env then "rtl" else "ltr").
Proof. unfold base_config. apply lookup_insert_eq. Qed.

Lemma base_config_spellchecker_language upper env :
  base_config upper env !! "spellchecker_language" = None.
Proof. unfold base_config. by rewrite !lookup_insert_ne. Qed.

Lemma add_spellchecker_other base languages k :
  k ≠ "spellchecker_language" → k ≠ "spellchecker_languages" →
  add_spellchecker base languages !! k = base !! k.
Proof.
  intros Hk1 Hk2. unfold add_spellchecker. rewrite lookup_insert_ne by done.
  destruct languages; [done|]. by apply set_default_language_other.
Qed.

Lemma add_spellchecker_languages base languages :
  add_spellchecker base languages !! "spellchecker_languages" =
  Some (str_join "," (entry <$> languages)).
Proof. unfold add_spellchecker. apply lookup_insert_eq. Qed.

Lemma add_spellchecker_language base languages :
  base !! "spellchecker_language" = None →
  add_spellchecker base languages !! "spellchecker_language" = snd <$> head languages.
Proof.
  intros Hbase. unfold add_spellchecker. rewrite lookup_insert_ne by done.
  destruct languages as [|nc languages]; [done|].
  by apply set_default_language_fresh.
Qed.

Lemma final_config_other upper env k :
  k ≠ "spellchecker_language" → k ≠ "spellchecker_languages" →
  final_config upper env !! k = base_config upper env !! k.
Proof.
  intros Hk1 Hk2. unfold final_config.
  destruct (USE_SPELLCHECKER env), (enchant env); try done.
  by apply add_spellchecker_other.
Qed.

Lemma import_fails_false env :
  (USE_SPELLCHECKER env = true → enchant env ≠ None) → import_fails env = false.
Proof.
  unfold import_fails. destruct (USE_SPELLCHECKER env); [|done].
  intros Hsome. simpl. apply bool_decide_eq_false. by apply Hsome.
Qed.

(** The function returns a configuration unless the import fails. *)
Lemma get_language_config_returns upper env :
  (USE_SPELLCHECKER env = true → enchant env ≠ None) →
  get_language_config upper env =
  (language_lookups upper env ++ spellchecker_events upper env,
   Ok (final_config upper env)).
Proof.
  intros Hsome. by rewrite get_language_config_eq, import_fails_false.
Qed.

Lemma finds_app tr1 tr2 : finds (tr1 ++ tr2) = finds tr1 ++ finds tr2.
Proof. unfold finds. apply omap_app. Qed.

Lemma errors_logged_app tr1 tr2 :
  errors_logged (tr1 ++ tr2) = errors_logged tr1 ++ errors_logged tr2.
Proof. unfold errors_logged. apply omap_app. Qed.

Lemma finds_language_lookups upper env :
  finds (language_lookups upper env) =
  language_file_path <$> resolve_queries upper (active_locale env) (file_exists env).
Proof.
  unfold language_lookups.
  by induction (resolve_queries upper (active_locale env) (file_exists env))
    as [|code codes IH]; [|cbn; f_equal].
Qed.

Lemma errors_logged_language_lookups upper env :
  errors_logged (language_lookups upper env) = [].
Proof.
  unfold language_lookups.
  by induction (resolve_queries upper (active_locale env) (file_exists env)).
Qed.

Lemma finds_LogError fmt args : finds (LogError fmt <$> args) = [].
Proof. by induction args. Qed.

Lemma errors_logged_LogError fmt args : errors_logged (LogError fmt <$> args) = args.
Proof. induction args as [|arg args IH]; [done|]. cbn. by f_equal. Qed.

Lemma finds_spellchecker_events upper env : finds (spellchecker_events upper env) = [].
Proof.
  unfold spellchecker_events.
  destruct (USE_SPELLCHECKER env), (enchant env) as [dicts|]; try done.
  rewrite finds_app, finds_LogError. by destruct (DEBUG env).
Qed.

(** The pieces of a split hold no separator, and joining them gives the
    string back. *)
Lemma str_split_parts sep s : Forall (λ p, ¬ occurs sep p) (str_split sep s).
Proof.
  induction s as [|c s IH]; simpl.
  - constructor; [by intros []|constructor].
  - case_decide as Hc.
    + constructor; [by intros []|done].
    + destruct (str_split sep s) as [|p ps].
      * constructor; [by intros [|[]]|constructor].
      * inversion IH as [|? ? Hp Hps]; subst.
        constructor; [|done]. by intros [|].
Qed.

Lemma str_join_split sep s : str_join (String sep EmptyString) (str_split sep s) = s.
Proof.
  induction s as [|c s IH]; simpl; [done|].
  case_decide as Hc.
  - subst c. pose proof (str_split_nonempty sep s) as Hne.
    destruct (str_split sep s) as [|p ps]; [done|].
    change (str_join (String sep EmptyString) (EmptyString :: p :: ps))
      with (String sep (str_join (String sep EmptyString) (p :: ps))).
    by rewrite IH.
  - pose proof (str_split_nonempty sep s) as Hne.
    destruct (str_split sep s) as [|p ps]; [done|].
    rewrite <- IH. by destruct ps.
Qed.

(** ** The claims *)

(** C3: [convert_language_code] splits its argument at the hyphens; the
    pieces hold no hyphen and joined by hyphens give the argument back.
    With a second piece (the region) the function returns the first
    piece, an underscore and the region in upper case; with one piece
    only it returns that piece, which is the argument itself. It never
    raises. In particular "pt-br" gives "pt_BR" and "en" gives "en". *)
Theorem convert_language_code_spec :
  (∀ (upper : string → string) (django_lang : string),
     ∃ language subtags,
       str_split "-" django_lang = language :: subtags ∧
       Forall (λ p, ¬ occurs "-" p) (language :: subtags) ∧
       str_join "-" (language :: subtags) = django_lang ∧
       convert_language_code upper django_lang =
         Ok (match subtags with
             | [] => django_lang
             | region :: _ => language +:+ "_" +:+ upper region
             end)) ∧
  convert_language_code ascii_str_upper "pt-br" = Ok "pt_BR" ∧
  convert_language_code ascii_str_upper "en" = Ok "en".
Proof.
  split; [|by split].
  intros upper django_lang.
  destruct (str_split "-" django_lang) as [|language subtags] eqn:Hsplit.
  - by destruct (str_split_nonempty "-" django_lang).
  - exists language, subtags.
    pose proof (str_split_parts "-" django_lang) as Hparts.
    pose proof (str_join_split "-" django_lang) as Hjoin.
    rewrite Hsplit in Hparts, Hjoin.
    repeat split; [done..|].
    rewrite (convert_language_code_split _ _ _ _ Hsplit).
    destruct subtags; [|done]. by rewrite <- Hjoin.
Qed.

(** C10: for an argument of two or more pieces separated by hyphens,
    [convert_language_code] returns the first piece, an underscore and
    the second piece in upper case; the pieces after the second are
    dropped. *)
Theorem convert_language_code_drops_tail
    (upper : string → string) (language region : string) (rest : list string) :
  Forall (λ p, ¬ occurs "-" p) (language :: region :: rest) →
  convert_language_code upper (str_join "-" (language :: region :: rest)) =
    Ok (language +:+ "_" +:+ upper region).
Proof.
  intros Hparts.
  by rewrite (convert_language_code_split upper _ language (region :: rest))
    by by apply str_split_join.
Qed.

Lemma convert_language_code_drops_tail_witness :
  convert_language_code ascii_str_upper "zh-hans-cn" = Ok "zh_HANS".
Proof.
  apply (convert_language_code_drops_tail ascii_str_upper "zh" "hans" ["cn"]).
  repeat (constructor; [cbn; intuition discriminate|]). constructor.
Defined.

(** C1: whenever a configuration is produced (that is, unless the
    spellchecker is asked for and cannot be imported),
    its [language] key holds a code for which [language_file_exists]
    answers true, or the literal "en". *)
Theorem language_available_or_en (upper : string → string) (env : Env) :
  (USE_SPELLCHECKER env = true → enchant env ≠ None) →
  ∃ tr config code,
    get_language_config upper env = (tr, Ok config) ∧
    config !! "language" = Some code ∧
    ((language_file_exists env code).2 = Ok true ∨ code = "en").
Proof.
  intros Hsome. rewrite (get_language_config_returns upper env Hsome).
  eexists _, _, _. split; [done|].
  rewrite final_config_other, base_config_language by done.
  split; [done|]. rewrite language_file_exists_eq. cbn [snd].
  unfold resolve_language.
  destruct (file_exists env (iso_code upper (active_locale env))) eqn:Hfull;
    [by left; rewrite Hfull|].
  destruct (file_exists env (slice_to 2 (iso_code upper (active_locale env)))) eqn:Hshort;
    [by left; rewrite Hshort|by right].
Qed.

Lemma language_available_or_en_witness :
  ∃ tr config code,
    get_language_config ascii_str_upper (env_of "fr-fr" false [] false None ["fr"]) =
      (tr, Ok config) ∧
    config !! "language" = Some code ∧
    ((language_file_exists (env_of "fr-fr" false [] false None ["fr"]) code).2 = Ok true ∨
     code = "en").
Proof.
  apply (language_available_or_en ascii_str_upper (env_of "fr-fr" false [] false None ["fr"])).
  simpl. discriminate.
Defined.

(** C2: the resolution is the chain of three steps and no more. The
    finders are asked for the converted code of the active locale and,
    only if that is absent, for its first two characters; the [language]
    key is the converted code if present, else the first two characters
    if present, else "en". The first two characters are the language
    subtag when that subtag has two characters. With the language file
    of "de_DE" alone, "de-at" resolves to "en"; with that of "fr" alone,
    "fr-fr" resolves to "fr". *)
Theorem language_degrade_chain :
  (∀ (upper : string → string) (env : Env),
     let code := iso_code upper (active_locale env) in
     convert_language_code upper (active_locale env) = Ok code ∧
     finds (get_language_config upper env).1 =
       language_file_path <$>
         (if file_exists env code then [code] else [code; slice_to 2 code]) ∧
     language_of (get_language_config upper env) =
       (if import_fails env then Raise (ImportError ImportError_msg)
        else Ok (Some (if file_exists env code then code
                       else if file_exists env (slice_to 2 code) then slice_to 2 code
                       else "en"))) ∧
     (∀ language subtags,
        str_split "-" (active_locale env) = language :: subtags →
        String.length language = 2 →
        slice_to 2 code = language)) ∧
  language_of (get_language_config ascii_str_upper
                 (env_of "de-at" false [] false None ["de_DE"])) = Ok (Some "en") ∧
  language_of (get_language_config ascii_str_upper
                 (env_of "fr-fr" false [] false None ["fr"])) = Ok (Some "fr").
Proof.
  split; [|by split; vm_compute].
  intros upper env code. split; [apply convert_language_code_Ok|].
  rewrite get_language_config_eq. cbn [fst]. repeat split.
  - by rewrite finds_app, finds_language_lookups, finds_spellchecker_events, app_nil_r.
  - unfold language_of. cbn [snd].
    destruct (import_fails env); [done|]. cbn.
    by rewrite final_config_other, base_config_language by done.
  - intros language subtags Hsplit Hlen. unfold code.
    rewrite (iso_code_split upper _ _ _ Hsplit).
    destruct subtags; [by apply slice_to_length|by apply slice_to_app].
Qed.

Lemma language_degrade_chain_witness :
  slice_to 2 (iso_code ascii_str_upper "fr-fr") = "fr".
Proof.
  apply (proj2 (proj2 (proj2
    (proj1 language_degrade_chain ascii_str_upper
       (env_of "fr-fr" false [] false None ["fr"])))) "fr" ["fr"]);
    reflexivity.
Defined.

(** C4: when the spellchecker is asked for and its library cannot be
    imported, the call raises [ImportError] with a message that names
    pyenchant, before any language of [settings.LANGUAGES] is looked
    at; in every other case the call returns a configuration, whatever
    dictionaries are missing. *)
Theorem spellchecker_import_error (upper : string → string) (env : Env) :
  (USE_SPELLCHECKER env = true → enchant env = None →
   ∃ tr,
     get_language_config upper env = (tr, Raise (ImportError ImportError_msg)) ∧
     tr = language_lookups upper env ∧ errors_logged tr = [] ∧
     ∃ before after, ImportError_msg = before +:+ "pyenchant" +:+ after) ∧
  (USE_SPELLCHECKER env = false ∨ enchant env ≠ None →
   ∃ tr config, get_language_config upper env = (tr, Ok config)).
Proof.
  split.
  - intros Huse Hnone. exists (language_lookups upper env).
    rewrite get_language_config_eq.
    unfold spellchecker_events, import_fails. rewrite Huse, Hnone, app_nil_r.
    repeat split; [apply errors_logged_language_lookups|].
    by exists "To use spellchecker you need to install ", " first!".
  - intros Hok. eexists _, _. apply get_language_config_returns.
    intros Huse. destruct Hok as [Hoff|Hsome]; [congruence|done].
Qed.

Lemma spellchecker_import_error_witness :
  (∃ tr, get_language_config ascii_str_upper
           (env_of "fr-fr" false [("en-us", "English")] true None ["fr"]) =
         (tr, Raise (ImportError ImportError_msg))) ∧
  (∃ tr config, get_language_config ascii_str_upper
                  (env_of "fr-fr" false [("en-us", "English")] true (Some []) ["fr"]) =
                (tr, Ok config)).
Proof.
  split.
  - destruct (proj1 (spellchecker_import_error ascii_str_upper
        (env_of "fr-fr" false [("en-us", "English")] true None ["fr"]))
      eq_refl eq_refl) as (tr & Hrun & _).
    by exists tr.
  - apply (proj2 (spellchecker_import_error ascii_str_upper
        (env_of "fr-fr" false [("en-us", "English")] true (Some []) ["fr"]))).
    right. simpl. discriminate.
Defined.

(** The names of the surviving languages are names of the input, in the
    order of the input. *)
Lemma surviving_sublist upper has_dictionary languages :
  (fst <$> surviving upper has_dictionary languages) `sublist_of` (snd <$> languages).
Proof.
  induction languages as [|[lang name] languages IH]; [done|].
  rewrite surviving_cons. cbn [fmap list_fmap snd].
  destruct (dictionary_code upper has_dictionary lang).
  - by apply sublist_skip.
  - by apply sublist_cons.
Qed.

(** C5: with the spellchecker on and its library present, each pair of
    [settings.LANGUAGES] survives with its converted code if a
    dictionary has it, else with the first two characters of that code
    if a dictionary has them, and is skipped (and logged) otherwise; the
    code of the first survivor is [spellchecker_language], and
    [spellchecker_languages] is the entries "Name=code" of the
    survivors, in the order of the input, joined by commas. *)
Theorem spellchecker_config (upper : string → string) (env : Env) (dicts : list string) :
  USE_SPELLCHECKER env = true →
  enchant env = Some dicts →
  let languages := surviving upper (λ code, bool_decide (code ∈ dicts)) (LANGUAGES env) in
  ∃ tr config,
    get_language_config upper env = (tr, Ok config) ∧
    config !! "spellchecker_language" = snd <$> head languages ∧
    config !! "spellchecker_languages" =
      Some (str_join "," ((λ '(name, code), name +:+ "=" +:+ code) <$> languages)) ∧
    (fst <$> languages) `sublist_of` (snd <$> LANGUAGES env) ∧
    errors_logged tr =
      skipped upper (λ code, bool_decide (code ∈ dicts)) (LANGUAGES env).
Proof.
  intros Huse Hdicts languages. fold (has dicts) in languages.
  rewrite get_language_config_returns by (rewrite Hdicts; done).
  eexists _, _. split; [done|].
  unfold final_config, spellchecker_events. rewrite Huse, Hdicts.
  fold languages. repeat split.
  - apply add_spellchecker_language, base_config_spellchecker_language.
  - rewrite add_spellchecker_languages. do 2 f_equal.
    apply list_fmap_ext. by intros ? [name code].
  - apply surviving_sublist.
  - rewrite !errors_logged_app, errors_logged_language_lookups, errors_logged_LogError.
    by destruct (DEBUG env).
Qed.

Lemma spellchecker_config_witness :
  ∃ tr config,
    get_language_config ascii_str_upper env_request = (tr, Ok config) ∧
    config !! "spellchecker_language" = Some "en_US" ∧
    config !! "spellchecker_languages" = Some "English=en_US,Portuguese=pt" ∧
    errors_logged tr = ["he"].
Proof.
  destruct (spellchecker_config ascii_str_upper env_request ["en_US"; "pt"]
              eq_refl eq_refl) as (tr & config & Hrun & Hfirst & Hall & _ & Hlog).
  exists tr, config. repeat split; [exact Hrun|exact Hfirst|exact Hall|exact Hlog].
Defined.

Lemma surviving_none upper dicts languages :
  Forall (λ item : string * string,
            (iso_code upper item.1 ∉ dicts) ∧
            (slice_to 2 (iso_code upper item.1) ∉ dicts))
         languages →
  surviving upper (has dicts) languages = [].
Proof.
  induction 1 as [|[lang name] languages [Hfull Hshort] _ IH]; [done|].
  rewrite surviving_cons. unfold dictionary_code, has.
  cbn [fst] in Hfull, Hshort.
  by rewrite !bool_decide_eq_false_2.
Qed.

(** C6: with the spellchecker on and its library present, if no
    language of [settings.LANGUAGES] has a dictionary, neither for its
    converted code nor for the first two characters of it, the
    configuration holds the empty string under [spellchecker_languages]
    and no [spellchecker_language] key. *)
Theorem spellchecker_config_no_dictionary
    (upper : string → string) (env : Env) (dicts : list string) :
  USE_SPELLCHECKER env = true →
  enchant env = Some dicts →
  Forall (λ item : string * string,
            (iso_code upper item.1 ∉ dicts) ∧
            (slice_to 2 (iso_code upper item.1) ∉ dicts))
         (LANGUAGES env) →
  ∃ tr config,
    get_language_config upper env = (tr, Ok config) ∧
    config !! "spellchecker_languages" = Some "" ∧
    config !! "spellchecker_language" = None.
Proof.
  intros Huse Hdicts Hnone.
  rewrite get_language_config_returns by (rewrite Hdicts; done).
  eexists _, _. split; [done|].
  unfold final_config. rewrite Huse, Hdicts, (surviving_none _ _ _ Hnone).
  split.
  - by rewrite add_spellchecker_languages.
  - rewrite add_spellchecker_language by apply base_config_spellchecker_language.
    done.
Qed.

Lemma spellchecker_config_no_dictionary_witness :
  ∃ tr config,
    get_language_config ascii_str_upper
      (env_of "fr-fr" false [("en-us", "English"); ("he", "Hebrew")] true
              (Some ["de_DE"]) ["fr"]) = (tr, Ok config) ∧
    config !! "spellchecker_languages" = Some "" ∧
    config !! "spellchecker_language" = None.
Proof.
  apply (spellchecker_config_no_dictionary ascii_str_upper
           (env_of "fr-fr" false [("en-us", "English"); ("he", "Hebrew")] true
                   (Some ["de_DE"]) ["fr"]) ["de_DE"] eq_refl eq_refl).
  repeat (constructor; [split; compute_done|]).
  constructor.
Defined.

(** C7: in every configuration the call produces, the [directionality]
    key is present, and it is "rtl" when [get_language_bidi()] is true
    and "ltr" when it is false. *)
Theorem directionality_of_bidi (upper : string → string) (env : Env) :
  (USE_SPELLCHECKER env = true → enchant env ≠ None) →
  ∃ tr config,
    get_language_config upper env = (tr, Ok config) ∧
    config !! "directionality" = Some (if get_language_bidi env then "rtl" else "ltr").
Proof.
  intros Hsome. rewrite (get_language_config_returns upper env Hsome).
  eexists _, _. split; [done|].
  by rewrite final_config_other, base_config_directionality by done.
Qed.

Lemma directionality_of_bidi_witness :
  (∃ tr config,
     get_language_config ascii_str_upper (env_of "he" true [] false None ["he"]) =
       (tr, Ok config) ∧
     config !! "directionality" = Some "rtl") ∧
  (∃ tr config,
     get_language_config ascii_str_upper env_request = (tr, Ok config) ∧
     config !! "directionality" = Some "ltr").
Proof.
  split.
  - apply (directionality_of_bidi ascii_str_upper (env_of "he" true [] false None ["he"])).
    simpl. discriminate.
  - apply (directionality_of_bidi ascii_str_upper env_request).
    simpl. discriminate.
Defined.

(** C8: the configuration is a function of the active locale, the
    direction flag, the list of languages, the spellchecker flag, the
    dictionaries and the answers of [language_file_exists]: two calls
    that agree on these return the same outcome, whatever else differs
    between them. *)
Theorem get_language_config_deterministic (upper : string → string) (env1 env2 : Env) :
  active_locale env1 = active_locale env2 →
  get_language_bidi env1 = get_language_bidi env2 →
  LANGUAGES env1 = LANGUAGES env2 →
  USE_SPELLCHECKER env1 = USE_SPELLCHECKER env2 →
  enchant env1 = enchant env2 →
  (∀ code, (language_file_exists env1 code).2 = (language_file_exists env2 code).2) →
  (get_language_config upper env1).2 = (get_language_config upper env2).2.
Proof.
  intros Hlocale Hbidi Hlanguages Huse Hdicts Hfiles.
  assert (∀ code, file_exists env1 code = file_exists env2 code) as Hexists.
  { intros code. specialize (Hfiles code).
    rewrite !language_file_exists_eq in Hfiles. by injection Hfiles. }
  rewrite !get_language_config_eq. cbn [snd].
  unfold import_fails, final_config, base_config, resolve_language.
  by rewrite Hlocale, Hbidi, Hlanguages, Huse, Hdicts, !Hexists.
Qed.

Lemma get_language_config_deterministic_witness :
  (get_language_config ascii_str_upper env_request).2 =
  (get_language_config ascii_str_upper env_settings).2.
Proof.
  apply (get_language_config_deterministic ascii_str_upper env_request env_settings);
    try reflexivity.
  intros code. rewrite !language_file_exists_eq. cbn [snd]. f_equal.
  unfold file_exists, env_request, env_settings, finders_find, finder_of.
  by destruct (bool_decide (language_file_path code ∈ language_file_path <$> ["pt_BR"])).
Defined.

(** C9: [UEditor.render] returns the text of the template with the name
    and the value put in; the state of the widget (its profile, its
    [ue_attrs], its attributes), the [attrs] argument and the renderer
    have no part in it. *)
Theorem render_independent_of_widget {V A R : Type} (w1 w2 : UEditor V A)
    (name : string) (value : option string)
    (attrs1 attrs2 : option (gmap string A)) (renderer1 renderer2 : option R) :
  render w1 name value attrs1 renderer1 = render w2 name value attrs2 renderer2 ∧
  render w1 name value attrs1 renderer1 = Ok (ue_html name (default "" value)).
Proof.
  split; [reflexivity|].
  unfold render. cbv zeta. by destruct value; vm_compute.
Qed.

(** ** More on strings *)

Lemma str_length_app (a b : string) :
  String.length (a +:+ b) = String.length a + String.length b.
Proof. induction a as [|c a IH]; simpl; [done|]. by rewrite IH. Qed.

Lemma str_app_inv_length (a b x y : string) :
  a +:+ x = b +:+ y → String.length a = String.length b → a = b ∧ x = y.
Proof.
  revert b. induction a as [|c a IH]; intros [|c' b] Heq Hlen; simpl in *; try done.
  injection Heq as -> Heq. injection Hlen as Hlen.
  destruct (IH b Heq Hlen) as [-> ->]. done.
Qed.

Lemma str_app_nil_r (a : string) : a +:+ EmptyString = a.
Proof.
  induction a as [|c a IH]; [done|].
  change (String c a +:+ EmptyString) with (String c (a +:+ EmptyString)).
  by rewrite IH.
Qed.

Lemma endswith_app c (a b : string) :
  endswith c (a +:+ b) = if decide (b = EmptyString) then endswith c a else endswith c b.
Proof.
  destruct (decide (b = EmptyString)) as [->|Hb].
  - by rewrite str_app_nil_r.
  - induction a as [|c' a IH]; [done|].
    change (String c' a +:+ b) with (String c' (a +:+ b)).
    destruct (a +:+ b) as [|c'' ab] eqn:Happ.
    + destruct a; [|done]. simpl in Happ. done.
    + by rewrite <- IH.
Qed.

Lemma occurs_app c (a b : string) : occurs c (a +:+ b) ↔ occurs c a ∨ occurs c b.
Proof. induction a as [|c' a IH]; simpl; [tauto|]. rewrite IH. tauto. Qed.

(** ** [language_file_exists]: the path it asks for *)

Lemma str_app_cons c (a b : string) : String c a +:+ b = String c (a +:+ b).
Proof. reflexivity. Qed.

Lemma str_app_nil_l (b : string) : EmptyString +:+ b = b.
Proof. reflexivity. Qed.

(** The path by the shape of the code. *)
Lemma language_file_path_eq code :
  language_file_path code =
  if startswith "/" code then code +:+ ".js"
  else "UE/lang/" +:+ code +:+
       (if bool_decide (code = EmptyString) || endswith "/" code then "" else "/") +:+
       code +:+ ".js".
Proof.
  unfold language_file_path, path_join. cbn [foldl].
  change (path_join_step "UE" "lang") with "UE/lang".
  destruct code as [|c code]; [reflexivity|].
  unfold path_join_step at 2. cbn [startswith].
  destruct (bool_decide (c = "/"%char)) eqn:Hc.
  - unfold path_join_step. rewrite str_app_cons. cbn [startswith]. by rewrite Hc.
  - change (bool_decide ("UE/lang" = EmptyString) || endswith "/" "UE/lang") with false.
    cbv iota. unfold path_join_step.
    rewrite !str_app_cons, !str_app_nil_l, !str_app_cons. cbn [startswith]. rewrite Hc.
    rewrite !bool_decide_eq_false_2 by done. cbn [orb endswith].
    by destruct (match code with
                 | EmptyString => bool_decide (c = "/"%char)
                 | String _ _ => endswith "/" code
                 end);
      rewrite ?str_app_cons, ?str_app_nil_l, ?str_app_cons.
Qed.

(** ** Further properties *)

(** X1: for a code that is not empty and neither starts nor ends with a
    slash, [language_file_exists] asks the finders for exactly one path,
    [UE/lang/<code>/<code>.js], and answers whether they found it. *)
Theorem language_file_exists_path (env : Env) (code : string) :
  code ≠ EmptyString →
  startswith "/" code = false →
  endswith "/" code = false →
  language_file_exists env code =
    ([Find ("UE/lang/" +:+ code +:+ "/" +:+ code +:+ ".js")],
     Ok (bool_decide
           (finders_find env ("UE/lang/" +:+ code +:+ "/" +:+ code +:+ ".js") ≠ None))).
Proof.
  intros Hne Hstart Hend.
  rewrite language_file_exists_eq. unfold file_exists.
  rewrite language_file_path_eq, Hstart, Hend.
  by rewrite bool_decide_eq_false_2.
Qed.

Lemma language_file_exists_path_witness :
  language_file_exists (env_of "pt-br" false [] false None ["pt_BR"]) "pt_BR" =
    ([Find "UE/lang/pt_BR/pt_BR.js"], Ok true).
Proof.
  rewrite (language_file_exists_path (env_of "pt-br" false [] false None ["pt_BR"]) "pt_BR");
    done.
Defined.

(** X2: a code that starts with a slash leaves the [UE/lang] directory:
    [os.path.join] restarts at each absolute component, so the path
    asked for is the code itself followed by [.js]. *)
Theorem language_file_exists_absolute_code (env : Env) (code : string) :
  startswith "/" code = true →
  language_file_exists env code =
    ([Find (code +:+ ".js")],
     Ok (bool_decide (finders_find env (code +:+ ".js") ≠ None))).
Proof.
  intros Hstart. rewrite language_file_exists_eq. unfold file_exists.
  by rewrite language_file_path_eq, Hstart.
Qed.

Lemma language_file_exists_absolute_code_witness :
  language_file_exists (env_of "en" false [] false None []) "/etc/passwd" =
    ([Find "/etc/passwd.js"], Ok false).
Proof.
  rewrite (language_file_exists_absolute_code (env_of "en" false [] false None [])
             "/etc/passwd"); done.
Defined.

Lemma language_file_path_eq_inv (code1 code2 : string) :
  language_file_path code1 = language_file_path code2 → code1 = code2.
Proof.
  rewrite !language_file_path_eq. intros Hpath.
  destruct (startswith "/" code1) eqn:Hs1, (startswith "/" code2) eqn:Hs2.
  - refine (proj1 (str_app_inv_length code1 code2 ".js" ".js" Hpath _)).
    apply (f_equal String.length) in Hpath. rewrite !str_length_app in Hpath.
    simpl in Hpath. lia.
  - destruct code1 as [|c code1]; [done|]. cbn [startswith] in Hs1.
    apply bool_decide_eq_true in Hs1 as ->. by rewrite !str_app_cons in Hpath.
  - destruct code2 as [|c code2]; [done|]. cbn [startswith] in Hs2.
    apply bool_decide_eq_true in Hs2 as ->. by rewrite !str_app_cons in Hpath.
  - apply (str_app_inv_length "UE/lang/" "UE/lang/") in Hpath as [_ Hpath]; [|done].
    pose proof (f_equal String.length Hpath) as Hlen. rewrite !str_length_app in Hlen.
    refine (proj1 (str_app_inv_length code1 code2 _ _ Hpath _)).
    destruct (bool_decide (code1 = EmptyString) || endswith "/" code1),
      (bool_decide (code2 = EmptyString) || endswith "/" code2);
      simpl in Hlen; lia.
Qed.

(** X3: different codes are looked for under different paths, whatever
    the codes are (empty, with slashes): two calls of
    [language_file_exists] that ask the finders the same question are
    calls for the same code. *)
Theorem language_file_exists_query_inj (env1 env2 : Env) (code1 code2 : string) :
  (language_file_exists env1 code1).1 = (language_file_exists env2 code2).1 →
  code1 = code2.
Proof.
  rewrite !language_file_exists_eq. cbn [fst]. intros [= Hpath].
  by apply language_file_path_eq_inv.
Qed.

Lemma language_file_exists_query_inj_witness : "de_DE" = "de_DE".
Proof.
  apply (language_file_exists_query_inj
           (env_of "de-de" false [] false None [])
           (env_of "de-at" false [] false None ["de_DE"]) "de_DE" "de_DE").
  reflexivity.
Defined.

Lemma slice_to_short n (s : string) : String.length s ≤ n → slice_to n s = s.
Proof.
  revert n. induction s as [|c s IH]; intros [|n] Hlen; simpl in *; try done; [lia|].
  rewrite IH; [done|lia].
Qed.

Lemma active_locale_with_get_language env :
  get_language env = None ∨ get_language env = Some EmptyString →
  active_locale (with_get_language (Some (LANGUAGE_CODE env)) env) = active_locale env.
Proof.
  unfold active_locale, with_get_language. cbn.
  intros [-> | ->]; cbn; by destruct (LANGUAGE_CODE env).
Qed.

(** X4: when [get_language()] answers [None] or the empty string, the
    call behaves, events and outcome, as if it had answered
    [settings.LANGUAGE_CODE]. *)
Theorem get_language_config_falls_back_to_settings (upper : string → string) (env : Env) :
  get_language env = None ∨ get_language env = Some EmptyString →
  get_language_config upper env =
  get_language_config upper (with_get_language (Some (LANGUAGE_CODE env)) env).
Proof.
  intros Hnone. rewrite !get_language_config_eq.
  unfold language_lookups, spellchecker_events, import_fails, final_config, base_config.
  rewrite (active_locale_with_get_language env Hnone). reflexivity.
Qed.

Lemma get_language_config_falls_back_to_settings_witness :
  get_language_config ascii_str_upper env_settings =
  get_language_config ascii_str_upper
    (with_get_language (Some (LANGUAGE_CODE env_settings)) env_settings).
Proof.
  apply (get_language_config_falls_back_to_settings ascii_str_upper env_settings).
  by left.
Defined.

(** X5: when the converted code of the active locale has at most two
    characters and its language file is absent, the slice gives the
    same code again: the finders are asked for the same path twice and
    the language is "en". *)
Theorem short_code_looked_up_twice (upper : string → string) (env : Env) :
  let code := iso_code upper (active_locale env) in
  String.length code ≤ 2 →
  (language_file_exists env code).2 = Ok false →
  finds (get_language_config upper env).1 =
    [language_file_path code; language_file_path code] ∧
  language_of (get_language_config upper env) =
    (if import_fails env then Raise (ImportError ImportError_msg) else Ok (Some "en")).
Proof.
  intros code Hlen Habsent.
  rewrite language_file_exists_eq in Habsent. injection Habsent as Habsent.
  rewrite get_language_config_eq. cbn [fst]. split.
  - rewrite finds_app, finds_language_lookups, finds_spellchecker_events, app_nil_r.
    unfold resolve_queries. fold code. by rewrite Habsent, (slice_to_short 2 code Hlen).
  - unfold language_of. cbn [snd]. destruct (import_fails env); [done|]. cbn.
    rewrite final_config_other, base_config_language by done.
    unfold resolve_language. fold code.
    by rewrite (slice_to_short 2 code Hlen), Habsent.
Qed.

Lemma short_code_looked_up_twice_witness :
  finds (get_language_config ascii_str_upper
           (env_of "he" true [] false None ["en"])).1 =
    ["UE/lang/he/he.js"; "UE/lang/he/he.js"] ∧
  language_of (get_language_config ascii_str_upper
                 (env_of "he" true [] false None ["en"])) = Ok (Some "en").
Proof.
  apply (short_code_looked_up_twice ascii_str_upper (env_of "he" true [] false None ["en"]));
    [compute_done|reflexivity].
Defined.

(** X6: the fallback "en" is given without a look: when the converted
    code and its first two characters are both absent and neither is
    "en", the language is "en" and the finders were never asked for
    the language file of "en". *)
Theorem fallback_en_not_looked_up (upper : string → string) (env : Env) :
  let code := iso_code upper (active_locale env) in
  code ≠ "en" → slice_to 2 code ≠ "en" →
  (language_file_exists env code).2 = Ok false →
  (language_file_exists env (slice_to 2 code)).2 = Ok false →
  (language_file_path "en" ∉ finds (get_language_config upper env).1) ∧
  language_of (get_language_config upper env) =
    (if import_fails env then Raise (ImportError ImportError_msg) else Ok (Some "en")).
Proof.
  intros code Hcode Hshort Hfull Hslice.
  rewrite language_file_exists_eq in Hfull, Hslice. cbn [snd] in Hfull, Hslice.
  assert (file_exists env code = false) as Hfull' by congruence.
  assert (file_exists env (slice_to 2 code) = false) as Hslice' by congruence.
  clear Hfull Hslice. rename Hfull' into Hfull, Hslice' into Hslice.
  rewrite get_language_config_eq. cbn [fst]. split.
  - rewrite finds_app, finds_language_lookups, finds_spellchecker_events, app_nil_r.
    unfold resolve_queries. fold code. rewrite Hfull. cbn.
    rewrite !not_elem_of_cons. repeat split.
    + intros Heq. by apply language_file_path_eq_inv in Heq.
    + intros Heq. by apply language_file_path_eq_inv in Heq.
    + apply not_elem_of_nil.
  - unfold language_of. cbn [snd]. destruct (import_fails env); [done|]. cbn.
    rewrite final_config_other, base_config_language by done.
    unfold resolve_language. fold code. by rewrite Hfull, Hslice.
Qed.

Lemma fallback_en_not_looked_up_witness :
  (language_file_path "en" ∉
     finds (get_language_config ascii_str_upper
              (env_of "de-at" false [] false None ["de_DE"])).1) ∧
  language_of (get_language_config ascii_str_upper
                 (env_of "de-at" false [] false None ["de_DE"])) = Ok (Some "en").
Proof.
  apply (fallback_en_not_looked_up ascii_str_upper
           (env_of "de-at" false [] false None ["de_DE"])); done.
Defined.

Lemma base_config_keys upper env k :
  is_Some (base_config upper env !! k) ↔ k = "language" ∨ k = "directionality".
Proof.
  destruct (decide (k = "language")) as [->|Hk1].
  { rewrite base_config_language. split; by eauto. }
  destruct (decide (k = "directionality")) as [->|Hk2].
  { rewrite base_config_directionality. split; by eauto. }
  unfold base_config. rewrite lookup_insert_ne, lookup_singleton_ne by done.
  split; [by intros [? ?]|by intros [?|?]].
Qed.

Lemma add_spellchecker_keys base languages k :
  base !! "spellchecker_language" = None →
  is_Some (add_spellchecker base languages !! k) ↔
  is_Some (base !! k) ∨ k = "spellchecker_languages" ∨
  (k = "spellchecker_language" ∧ languages ≠ []).
Proof.
  intros Hbase.
  destruct (decide (k = "spellchecker_languages")) as [->|Hk1].
  { rewrite add_spellchecker_languages. split; [by eauto|by eauto]. }
  destruct (decide (k = "spellchecker_language")) as [->|Hk2].
  { rewrite add_spellchecker_language, Hbase by done.
    destruct languages as [|nc languages]; cbn; split.
    - by intros [? ?].
    - intros [[? ?]|[?|[_ ?]]]; done.
    - by eauto.
    - by eauto. }
  rewrite add_spellchecker_other by done.
  split; [by eauto|]. by intros [?|[?|[? _]]].
Qed.

(** X7: a configuration the call returns has the keys [language] and
    [directionality]; with the spellchecker on it also has
    [spellchecker_languages], and [spellchecker_language] exactly when
    some language survives; it has no other key. *)
Theorem config_keys (upper : string → string) (env : Env) :
  (USE_SPELLCHECKER env = true → enchant env ≠ None) →
  ∃ tr config,
    get_language_config upper env = (tr, Ok config) ∧
    ∀ k, is_Some (config !! k) ↔
         k = "language" ∨ k = "directionality" ∨
         (USE_SPELLCHECKER env = true ∧
          (k = "spellchecker_languages" ∨
           (k = "spellchecker_language" ∧
            ∃ dicts, enchant env = Some dicts ∧
                     surviving upper (λ code, bool_decide (code ∈ dicts))
                       (LANGUAGES env) ≠ []))).
Proof.
  intros Hsome. rewrite (get_language_config_returns upper env Hsome).
  eexists _, _. split; [done|]. intros k. unfold final_config.
  destruct (USE_SPELLCHECKER env) eqn:Huse.
  - destruct (enchant env) as [dicts|] eqn:Hdicts; [|by destruct Hsome].
    rewrite add_spellchecker_keys by apply base_config_spellchecker_language.
    rewrite base_config_keys. fold (has dicts). split.
    + intros [[Hk|Hk]|[Hk|[Hk Hne]]].
      * by left.
      * by right; left.
      * right; right. split; [done|]. by left.
      * right; right. split; [done|]. right. split; [done|]. by exists dicts.
    + intros [Hk|[Hk|[_ [Hk|[Hk (dicts' & [= <-] & Hne)]]]]].
      * left. by left.
      * left. by right.
      * right. by left.
      * right; right. done.
  - rewrite base_config_keys. split.
    + intros [Hk|Hk]; [by left|by right; left].
    + intros [Hk|[Hk|[Hoff _]]]; [by left|by right|done].
Qed.

Lemma config_keys_witness :
  ∃ tr config,
    get_language_config ascii_str_upper env_request = (tr, Ok config) ∧
    is_Some (config !! "spellchecker_language") ∧
    config !! "selector" = None.
Proof.
  destruct (config_keys ascii_str_upper env_request) as (tr & config & Hrun & Hkeys);
    [done|].
  exists tr, config. split; [exact Hrun|]. split.
  - apply Hkeys. right. right. split; [done|]. right. split; [done|].
    by exists ["en_US"; "pt"].
  - apply eq_None_not_Some. intros Hsel. apply Hkeys in Hsel.
    by destruct Hsel as [?|[?|[_ [?|[? _]]]]].
Defined.

Lemma surviving_has upper has_dictionary languages :
  Forall (λ nc : string * string, has_dictionary nc.2 = true)
         (surviving upper has_dictionary languages).
Proof.
  induction languages as [|[lang name] languages IH]; [constructor|].
  rewrite surviving_cons.
  destruct (dictionary_code upper has_dictionary lang) as [code|] eqn:Hcode; [|done].
  constructor; [|done]. cbn. unfold dictionary_code in Hcode.
  destruct (has_dictionary (iso_code upper lang)) eqn:Hfull; [by injection Hcode as <-|].
  destruct (has_dictionary (slice_to 2 (iso_code upper lang))) eqn:Hshort; [|done].
  by injection Hcode as <-.
Qed.

Lemma surviving_skipped_length upper has_dictionary languages :
  length (surviving upper has_dictionary languages) +
  length (skipped upper has_dictionary languages) = length languages.
Proof.
  induction languages as [|[lang name] languages IH]; [done|].
  rewrite surviving_cons, skipped_cons.
  destruct (dictionary_code upper has_dictionary lang); cbn; lia.
Qed.

(** X8: with the spellchecker on and its library present, every code
    written into [spellchecker_languages] is a code of the dictionary
    list, and so is [spellchecker_language] when it is set. *)
Theorem spellchecker_codes_have_dictionary
    (upper : string → string) (env : Env) (dicts : list string) :
  USE_SPELLCHECKER env = true →
  enchant env = Some dicts →
  ∃ tr config languages,
    get_language_config upper env = (tr, Ok config) ∧
    config !! "spellchecker_languages" =
      Some (str_join "," ((λ '(name, code), name +:+ "=" +:+ code) <$> languages)) ∧
    Forall (λ nc : string * string, nc.2 ∈ dicts) languages ∧
    ∀ lang, config !! "spellchecker_language" = Some lang → lang ∈ dicts.
Proof.
  intros Huse Hdicts.
  rewrite get_language_config_returns by (rewrite Hdicts; done).
  eexists _, _, (surviving upper (has dicts) (LANGUAGES env)). split; [done|].
  unfold final_config. rewrite Huse, Hdicts.
  pose proof (surviving_has upper (has dicts) (LANGUAGES env)) as Hhas.
  assert (Forall (λ nc : string * string, nc.2 ∈ dicts)
            (surviving upper (has dicts) (LANGUAGES env))) as Hin.
  { eapply Forall_impl; [exact Hhas|]. intros nc Hnc. by apply bool_decide_eq_true in Hnc. }
  repeat split; [|done|].
  - rewrite add_spellchecker_languages. do 2 f_equal.
    apply list_fmap_ext. by intros ? [name code].
  - intros lang.
    rewrite add_spellchecker_language by apply base_config_spellchecker_language.
    destruct Hin as [|nc languages Hnc _]; [done|]. cbn. by intros [= <-].
Qed.

Lemma spellchecker_codes_have_dictionary_witness :
  ∃ tr config languages,
    get_language_config ascii_str_upper env_request = (tr, Ok config) ∧
    config !! "spellchecker_languages" =
      Some (str_join "," ((λ '(name, code), name +:+ "=" +:+ code) <$> languages)) ∧
    Forall (λ nc : string * string, nc.2 ∈ ["en_US"; "pt"]) languages ∧
    ∀ lang, config !! "spellchecker_language" = Some lang → lang ∈ ["en_US"; "pt"].
Proof.
  apply (spellchecker_codes_have_dictionary ascii_str_upper env_request ["en_US"; "pt"]);
    reflexivity.
Defined.

(** X9: with the spellchecker on and its library present, every pair of
    [settings.LANGUAGES] is either written into [spellchecker_languages]
    or logged as missing, once: the entries and the error records
    together are as many as the pairs. *)
Theorem spellchecker_entry_or_error
    (upper : string → string) (env : Env) (dicts : list string) :
  USE_SPELLCHECKER env = true →
  enchant env = Some dicts →
  ∃ tr config languages,
    get_language_config upper env = (tr, Ok config) ∧
    config !! "spellchecker_languages" =
      Some (str_join "," ((λ '(name, code), name +:+ "=" +:+ code) <$> languages)) ∧
    length languages + length (errors_logged tr) = length (LANGUAGES env).
Proof.
  intros Huse Hdicts.
  rewrite get_language_config_returns by (rewrite Hdicts; done).
  eexists _, _, (surviving upper (has dicts) (LANGUAGES env)). split; [done|].
  unfold final_config, spellchecker_events. rewrite Huse, Hdicts. split.
  - rewrite add_spellchecker_languages. do 2 f_equal.
    apply list_fmap_ext. by intros ? [name code].
  - rewrite !errors_logged_app, errors_logged_language_lookups, errors_logged_LogError.
    cbn [app]. replace (errors_logged (if DEBUG env then _ else _)) with (@nil string)
      by by destruct (DEBUG env).
    apply surviving_skipped_length.
Qed.

Lemma spellchecker_entry_or_error_witness :
  ∃ tr config languages,
    get_language_config ascii_str_upper env_request = (tr, Ok config) ∧
    config !! "spellchecker_languages" =
      Some (str_join "," ((λ '(name, code), name +:+ "=" +:+ code) <$> languages)) ∧
    length languages + length (errors_logged tr) = 3.
Proof.
  apply (spellchecker_entry_or_error ascii_str_upper env_request ["en_US"; "pt"]);
    reflexivity.
Defined.

Lemma ascii_upper_hyphen c : ascii_upper c = "-"%char → c = "-"%char.
Proof.
  destruct c as [[] [] [] [] [] [] [] []]; vm_compute; intros H;
    first [reflexivity | discriminate H].
Qed.

Lemma ascii_str_upper_hyphen r : occurs "-" (ascii_str_upper r) → occurs "-" r.
Proof.
  induction r as [|c r IH]; [done|]. cbn.
  intros [Hc|Hr]; [left; by apply ascii_upper_hyphen|right; by apply IH].
Qed.

(** X10: when upper-casing brings in no hyphen (as [str.upper] does not),
    the code [convert_language_code] returns holds no hyphen, and
    converting it again gives it back: the conversion is idempotent. *)
Theorem convert_language_code_idempotent (upper : string → string) (django_lang : string) :
  (∀ r, occurs "-" (upper r) → occurs "-" r) →
  ∃ code,
    convert_language_code upper django_lang = Ok code ∧
    ¬ occurs "-" code ∧
    convert_language_code upper code = Ok code.
Proof.
  intros Hupper. exists (iso_code upper django_lang).
  split; [apply convert_language_code_Ok|].
  assert (¬ occurs "-" (iso_code upper django_lang)) as Hno.
  { destruct (str_split "-" django_lang) as [|language subtags] eqn:Hsplit;
      [by destruct (str_split_nonempty "-" django_lang)|].
    pose proof (str_split_parts "-" django_lang) as Hparts. rewrite Hsplit in Hparts.
    rewrite (iso_code_split upper _ _ _ Hsplit).
    inversion Hparts as [|? ? Hlanguage Hsubtags]; subst.
    destruct subtags as [|region subtags]; [done|].
    inversion Hsubtags as [|? ? Hregion _]; subst.
    rewrite !occurs_app. intros [Hl|[Hu|Hr]].
    - by apply Hlanguage.
    - cbn in Hu. by destruct Hu as [?|[]].
    - by apply Hregion, Hupper. }
  split; [done|].
  by rewrite (convert_language_code_split upper _ _ [] (str_split_no_sep _ _ Hno)).
Qed.

Lemma convert_language_code_idempotent_witness :
  ∃ code,
    convert_language_code ascii_str_upper "pt-br" = Ok code ∧
    ¬ occurs "-" code ∧
    convert_language_code ascii_str_upper code = Ok code.
Proof.
  apply (convert_language_code_idempotent ascii_str_upper "pt-br").
  exact ascii_str_upper_hyphen.
Defined.

(** X11: in the attributes [build_attrs] returns, a key of
    [extra_attrs] has the value [extra_attrs] gives it, another key of
    the keyword arguments has theirs, and a key of neither has the
    value of [base_attrs]: later sources override earlier ones. *)
Theorem build_attrs_lookup {A : Type} (base_attrs : gmap string A)
    (extra_attrs : option (gmap string A)) (kwargs : gmap string A) (k : string) :
  build_attrs base_attrs extra_attrs kwargs !! k =
    match extra_attrs ≫= (λ extra, extra !! k) with
    | Some v => Some v
    | None =>
        match kwargs !! k with
        | Some v => Some v
        | None => base_attrs !! k
        end
    end.
Proof.
  unfold build_attrs.
  assert ((kwargs ∪ base_attrs) !! k =
          match kwargs !! k with Some v => Some v | None => base_attrs !! k end) as Hunion.
  { rewrite lookup_union. by destruct (kwargs !! k), (base_attrs !! k). }
  destruct extra_attrs as [extra|]; cbn; [|done].
  case_decide as Hextra.
  - subst extra. by rewrite lookup_empty.
  - rewrite lookup_union, Hunion.
    by destruct (extra !! k), (kwargs !! k), (base_attrs !! k).
Qed.

(** ** [render_ueditor_init_js] *)

Lemma str_app_assoc (a b c : string) : (a +:+ b) +:+ c = a +:+ b +:+ c.
Proof.
  induction a as [|x a IH]; [done|]. rewrite !str_app_cons. by rewrite IH.
Qed.

Lemma str_prefix_spec (p s : string) :
  str_prefix p s = true ↔ ∃ post, s = p +:+ post.
Proof.
  revert s. induction p as [|c p IH]; intros s.
  - split; [|done]. intros _. by exists s.
  - destruct s as [|c' s]; cbn [str_prefix].
    + split; [done|]. by intros [post Hpost].
    + rewrite andb_true_iff, bool_decide_eq_true, IH. split.
      * intros [-> [post ->]]. by exists post.
      * intros [post Hpost]. rewrite str_app_cons in Hpost.
        injection Hpost as -> ->. split; [done|]. by exists post.
Qed.

Lemma str_contains_spec (sub s : string) :
  str_contains sub s = true ↔ ∃ pre post, s = pre +:+ sub +:+ post.
Proof.
  induction s as [|c s IH]; cbn [str_contains]; rewrite orb_true_iff, str_prefix_spec.
  - split.
    + intros [[post Hpost]|?]; [|done]. by exists EmptyString, post.
    + intros (pre & post & Hs). left. destruct pre; [|done]. by exists post.
  - rewrite IH. split.
    + intros [[post Hpost]|(pre & post & ->)].
      * by exists EmptyString, post.
      * by exists (String c pre), post.
    + intros ([|c' pre] & post & Hs).
      * left. by exists post.
      * right. rewrite str_app_cons in Hs. injection Hs as -> ->. by exists pre, post.
Qed.

Lemma default_callbacks_lookup env USE_FILEBROWSER callbacks k :
  default_callbacks env USE_FILEBROWSER callbacks !! k =
    match callbacks !! k with
    | Some callback => Some callback
    | None =>
        if decide (k = "file_browser_callback") then
          if USE_FILEBROWSER then Some "djangoFileBrowser" else None
        else if decide (k = "spellchecker_callback") then
          if USE_SPELLCHECKER env then Some "ueditor4_spellcheck" else None
        else None
    end.
Proof.
  unfold default_callbacks.
  set (callbacks1 :=
         if USE_FILEBROWSER && bool_decide (callbacks !! "file_browser_callback" = None)
         then <["file_browser_callback" := "djangoFileBrowser"]> callbacks
         else callbacks).
  assert (callbacks1 !! k =
          match callbacks !! k with
          | Some callback => Some callback
          | None =>
              if decide (k = "file_browser_callback") then
                if USE_FILEBROWSER then Some "djangoFileBrowser" else None
              else None
          end) as H1.
  { unfold callbacks1. destruct USE_FILEBROWSER; cbn [andb].
    - case_bool_decide as Hfb.
      + destruct (decide (k = "file_browser_callback")) as [->|Hk].
        * by rewrite lookup_insert_eq, Hfb.
        * rewrite lookup_insert_ne by done. by destruct (callbacks !! k).
      + destruct (callbacks !! k) eqn:Hk; [done|]. case_decide; [by subst|done].
    - destruct (callbacks !! k); [done|]. by case_decide. }
  assert (callbacks1 !! "spellchecker_callback" = callbacks !! "spellchecker_callback")
    as Hsc.
  { unfold callbacks1.
    destruct (USE_FILEBROWSER && bool_decide (callbacks !! "file_browser_callback" = None));
      [by rewrite lookup_insert_ne|done]. }
  destruct (USE_SPELLCHECKER env); cbn [andb].
  - case_bool_decide as Hnone.
    + destruct (decide (k = "spellchecker_callback")) as [->|Hk].
      * rewrite lookup_insert_eq. rewrite Hsc in Hnone. rewrite Hnone.
        by rewrite decide_False.
      * rewrite lookup_insert_ne, H1 by done.
        destruct (callbacks !! k); [done|]. by case_decide.
    + rewrite H1. destruct (callbacks !! k) eqn:Hk; [done|].
      case_decide; [done|]. case_decide; [|done]. subst. by rewrite Hsc, Hk in Hnone.
  - rewrite H1. destruct (callbacks !! k); [done|].
    case_decide; [done|]. by case_decide.
Qed.

(** X12: [render_ueditor_init_js] writes its default callbacks into the
    caller's dictionary only under keys the caller left out, and only
    when the feature is on: a callback the caller gave is never
    replaced, and no other key is touched. This holds also when the call
    goes on to raise [TypeError]. *)
Theorem render_ueditor_init_js_callbacks {O : Type}
    (json_dumps : gmap string (jvalue O) → string)
    (render_to_string : string → init_context → string)
    (env : Env) (USE_FILEBROWSER : bool)
    (qtue_config : gmap string (jvalue O)) (callbacks : gmap string string)
    (id_ k : string) :
  (render_ueditor_init_js json_dumps render_to_string env USE_FILEBROWSER
     qtue_config callbacks id_).1.2 !! k =
    match callbacks !! k with
    | Some callback => Some callback
    | None =>
        if decide (k = "file_browser_callback") then
          if USE_FILEBROWSER then Some "djangoFileBrowser" else None
        else if decide (k = "spellchecker_callback") then
          if USE_SPELLCHECKER env then Some "ueditor4_spellcheck" else None
        else None
    end.
Proof.
  rewrite <- default_callbacks_lookup. unfold render_ueditor_init_js.
  by destruct (if bool_decide (id_ ≠ EmptyString) then _ else _).
Qed.

(** X13: [render_ueditor_init_js] raises [TypeError] exactly when the id
    is not empty and the configuration holds a selector that is no
    string; it then leaves the configuration as it was. In every other
    case it returns the rendered text. *)
Theorem render_ueditor_init_js_type_error {O : Type}
    (json_dumps : gmap string (jvalue O) → string)
    (render_to_string : string → init_context → string)
    (env : Env) (USE_FILEBROWSER : bool)
    (qtue_config : gmap string (jvalue O)) (callbacks : gmap string string)
    (id_ : string) :
  let run := render_ueditor_init_js json_dumps render_to_string env USE_FILEBROWSER
               qtue_config callbacks id_ in
  (run.2 = RaisesTypeError ↔
   id_ ≠ EmptyString ∧ ∃ o, qtue_config !! "selector" = Some (JOther o)) ∧
  (run.2 = RaisesTypeError → run.1.1 = qtue_config) ∧
  (run.2 ≠ RaisesTypeError → ∃ text, run.2 = Returns text).
Proof.
  intros run. unfold run, render_ueditor_init_js.
  case_bool_decide as Hid.
  - destruct (qtue_config !! "selector") as [[s|o]|] eqn:Hsel; cbn.
    + repeat split; try done; [by intros (_ & o & [=])|by eauto].
    + repeat split; try done. by exists o.
    + repeat split; try done; [by intros (_ & o & [=])|by eauto].
  - cbn. repeat split; try done; [|by eauto].
    intros [Hne _]. destruct Hid. done.
Qed.

Lemma render_ueditor_init_js_type_error_witness :
  (render_ueditor_init_js (λ _ : gmap string (jvalue bool), "{}") (λ _ _, "init")
     env_request true {["selector" := JOther true]} ∅ "id_body").2 = RaisesTypeError.
Proof.
  apply (proj1 (render_ueditor_init_js_type_error
                  (λ _ : gmap string (jvalue bool), "{}") (λ _ _, "init")
                  env_request true {["selector" := JOther true]} ∅ "id_body")).
  split; [done|]. by exists true.
Defined.

(** X14: the selector is written into the caller's configuration, so
    it piles up: after a call for one id and a second call, on the
    configuration the first one left, for another id, the selector is
    the first selector ("textarea" if there was none) followed by
    [#id1#id2], and nothing else of the configuration has changed. *)
Theorem render_ueditor_init_js_selector_accumulates {O : Type}
    (json_dumps : gmap string (jvalue O) → string)
    (render_to_string : string → init_context → string)
    (env : Env) (USE_FILEBROWSER : bool)
    (qtue_config : gmap string (jvalue O)) (callbacks : gmap string string)
    (id1 id2 : string) :
  id1 ≠ EmptyString → id2 ≠ EmptyString →
  (∀ o, qtue_config !! "selector" ≠ Some (JOther o)) →
  let first := render_ueditor_init_js json_dumps render_to_string env USE_FILEBROWSER
                 qtue_config callbacks id1 in
  let second := render_ueditor_init_js json_dumps render_to_string env USE_FILEBROWSER
                  first.1.1 first.1.2 id2 in
  let selector := match qtue_config !! "selector" with
                  | Some (JStr s) => s
                  | _ => "textarea"
                  end in
  second.1.1 =
    <["selector" := JStr (selector +:+ "#" +:+ id1 +:+ "#" +:+ id2)]> qtue_config.
Proof.
  intros Hid1 Hid2 Hstr first second selector.
  unfold second, first, render_ueditor_init_js.
  rewrite !bool_decide_eq_true_2 by done.
  assert (default (JStr "textarea") (qtue_config !! "selector") = JStr selector) as ->.
  { unfold selector. destruct (qtue_config !! "selector") as [[s|o]|] eqn:Hsel; try done.
    by destruct (Hstr o). }
  cbn. rewrite lookup_insert_eq. cbn.
  by rewrite insert_insert_eq, str_app_assoc, str_app_assoc.
Qed.

Lemma render_ueditor_init_js_selector_accumulates_witness :
  (render_ueditor_init_js (λ _ : gmap string (jvalue bool), "{}") (λ _ _, "init")
     env_request false
     (render_ueditor_init_js (λ _ : gmap string (jvalue bool), "{}") (λ _ _, "init")
        env_request false ∅ ∅ "id_a").1.1
     (render_ueditor_init_js (λ _ : gmap string (jvalue bool), "{}") (λ _ _, "init")
        env_request false ∅ ∅ "id_a").1.2
     "id_b").1.1 =
  <["selector" := JStr "textarea#id_a#id_b"]> ∅.
Proof.
  etrans;
    [apply (render_ueditor_init_js_selector_accumulates
              (λ _ : gmap string (jvalue bool), "{}") (λ _ _, "init")
              env_request false ∅ ∅ "id_a" "id_b"); done|].
  reflexivity.
Defined.

(** X15: when the call returns, the text is the template
    [ueditor/ueditor_init.js] rendered with the callbacks and the
    configuration as the call leaves them (defaults and selector
    included, the configuration as JSON without its outer braces), and
    with [is_admin_inline] true exactly when [__prefix__] occurs in the
    id. *)
Theorem render_ueditor_init_js_context {O : Type}
    (json_dumps : gmap string (jvalue O) → string)
    (render_to_string : string → init_context → string)
    (env : Env) (USE_FILEBROWSER : bool)
    (qtue_config : gmap string (jvalue O)) (callbacks : gmap string string)
    (id_ : string) :
  let run := render_ueditor_init_js json_dumps render_to_string env USE_FILEBROWSER
               qtue_config callbacks id_ in
  run.2 ≠ RaisesTypeError →
  ∃ context,
    run.2 = Returns (render_to_string "ueditor/ueditor_init.js" context) ∧
    ctx_callbacks context = run.1.2 ∧
    ctx_ueditor_config context = slice_1_m1 (json_dumps run.1.1) ∧
    (ctx_is_admin_inline context = true ↔
     ∃ before after, id_ = before +:+ "__prefix__" +:+ after).
Proof.
  intros run. unfold run, render_ueditor_init_js.
  destruct (if bool_decide (id_ ≠ EmptyString) then _ else _) as [qtue_config'|];
    cbn; [|done].
  intros _. eexists. repeat split; cbn; by apply str_contains_spec.
Qed.

Lemma render_ueditor_init_js_context_witness :
  ∃ context,
    (render_ueditor_init_js (λ _ : gmap string (jvalue bool), "{}")
       (λ _ context, if ctx_is_admin_inline context then "inline" else "init")
       env_request true ∅ ∅ "id_form-__prefix__-body").2 =
      Returns ((λ _ context, if ctx_is_admin_inline context then "inline" else "init")
                 "ueditor/ueditor_init.js" context) ∧
    ctx_callbacks context =
      (render_ueditor_init_js (λ _ : gmap string (jvalue bool), "{}")
         (λ _ context, if ctx_is_admin_inline context then "inline" else "init")
         env_request true ∅ ∅ "id_form-__prefix__-body").1.2 ∧
    ctx_ueditor_config context =
      slice_1_m1 ((λ _ : gmap string (jvalue bool), "{}")
        (render_ueditor_init_js (λ _ : gmap string (jvalue bool), "{}")
           (λ _ context, if ctx_is_admin_inline context then "inline" else "init")
           env_request true ∅ ∅ "id_form-__prefix__-body").1.1) ∧
    (ctx_is_admin_inline context = true ↔
     ∃ before after, "id_form-__prefix__-body" = before +:+ "__prefix__" +:+ after).
Proof.
  apply (render_ueditor_init_js_context (λ _ : gmap string (jvalue bool), "{}")
           (λ _ context, if ctx_is_admin_inline context then "inline" else "init")
           env_request true ∅ ∅ "id_form-__prefix__-body").
  done.
Defined.

(** ** [UEditor.render]: the value in the text *)

Lemma render_ue_html {V A R : Type} (self : UEditor V A) (name : string)
    (value : option string) (attrs : option (gmap string A)) (renderer : option R) :
  render self name value attrs renderer = Ok (ue_html name (default "" value)).
Proof. unfold render. cbv zeta. by destruct value; vm_compute. Qed.

(** X16: [UEditor.render] copies the value into the text as it is,
    once, between two texts that depend on the name only: nothing of
    the value is escaped or read as a replacement field. A value of
    [None] is rendered as the empty string. *)
Theorem render_value_verbatim (name : string) :
  ∃ before after,
    ∀ (V A R : Type) (self : UEditor V A) (value : option string)
      (attrs : option (gmap string A)) (renderer : option R),
      render self name value attrs renderer =
        Ok (before +:+ default "" value +:+ after).
Proof.
  exists ("<script id=" +:+ dq +:+ name +:+ dq +:+ " name=" +:+ dq +:+ name +:+ dq +:+
          " type=" +:+ dq +:+ "text/plain" +:+ dq +:+ ">" +:+ nl +:+
          "                                            </script>" +:+ nl +:+
          "                                            <textarea id=" +:+ dq +:+ name +:+
          "_val" +:+ dq +:+ " style=" +:+ dq +:+ "display:none;" +:+ dq +:+ " >"),
         ("</textarea>" +:+ nl +:+
          "                                            <script>" +:+ nl +:+
          "                                            (function ($) {" +:+ nl +:+
          "                                                var ue = UE.getEditor(" +:+ dq +:+ name +:+ dq +:+ ",{zIndex: 100});" +:+ nl +:+
          "                                                ue.ready(function () {" +:+ nl +:+
          "                                                    var content_val =$('#" +:+ name +:+ "_val').val();" +:+ nl +:+
          "                                                    ue.setContent(content_val);" +:+ nl +:+
          "                                                });" +:+ nl +:+
          "                                            })(grp.jQuery);" +:+ nl +:+
          "                                            </script>").
  intros V A R self value attrs renderer. rewrite render_ue_html.
  unfold ue_html. by rewrite !str_app_assoc.
Qed.
